(** * Wing spar quick sizer: the calculation core of [spar_streamlit.py]

    The Python program computes with binary64 floats.  The development
    reads it twice.

    The exact reading takes every float as the rational number it stands
    for and every operation as the exact one; of Python's float semantics
    it keeps that [x / y] raises [ZeroDivisionError] when [y] is zero.  It
    serves for the parsing, the evaluation loop, the sort and the
    recommendation, whose properties are stated so that they do not depend
    on what a single evaluation returns, and for the properties of the
    formulas themselves.

    The binary64 reading, in the module [Binary64], is bit for bit: every
    operation of the three physics functions is rounded to binary64,
    [x ** 4] raises [OverflowError] when it is out of range, and a division
    raises [ZeroDivisionError] when its divisor is [0.0] or [-0.0].  It
    serves for what the functions return and raise. *)

From Stdlib Require Import Arith QArith Qfield Lqa Lia.
From Stdlib Require Import List Bool String Ascii.
From Stdlib Require Import Sorting.Sorted Sorting.Permutation.
From Stdlib Require Import Floats.PrimFloat.
From Stdlib Require Floats.SpecFloat Floats.FloatOps Floats.FloatAxioms.
Import ListNotations.

Set Warnings "-inexact-float".
Local Open Scope Q_scope.

(** ** Exceptions *)

Inductive exn : Type :=
| ZeroDivisionError
| OverflowError.

Inductive result (A : Type) : Type :=
| Ok (a : A)
| Raise (e : exn).

Arguments Ok {A} a.
Arguments Raise {A} e.

Definition bind {A B : Type} (m : result A) (k : A -> result B) : result B :=
  match m with
  | Ok a => k a
  | Raise e => Raise e
  end.

Notation "x <- m ;; k" := (bind m (fun x => k))
  (at level 61, m at next level, right associativity).
Notation "' p <- m ;; k" := (bind m (fun x => let p := x in k))
  (at level 61, p pattern, m at next level, right associativity).

(** ** Float operations *)

(** [x / y] on Python floats. *)
Definition pydiv (x y : Q) : result Q :=
  if Qeq_bool y 0 then Raise ZeroDivisionError else Ok (x / y).

(** [math.pi]: the binary64 constant 0x1.921fb54442d18p+1. *)
Definition math_pi : Q := 884279719003555 # 281474976710656.

(** The default value of the parameter [g] of [root_bending_moment]. *)
Definition g_default : Q := 9.81.

(** ** Physics functions *)

(** [root_bending_moment(mass_kg, span_m, load_factor, g=9.81)].
    The division is by the literal [8.0] and cannot raise. *)
Definition root_bending_moment (mass_kg span_m load_factor g : Q)
  : Q * Q * Q * Q :=
  let W := mass_kg * g in
  let L := W * load_factor in
  let M := L * span_m / 8.0 in
  (W, L, M, M * 1000).

(** [tube_section(D, d)].  [math.pi / 64] and [D / 2] divide by non-zero
    literals; [I / c] raises when [c] is zero.  The source's [I] and [S] are
    written [I_] and [S_]. *)
Definition tube_section (D d : Q) : result (Q * Q) :=
  let I_ := math_pi / 64 * (D ^ 4 - d ^ 4) in
  let c := D / 2 in
  S_ <- pydiv I_ c ;;
  Ok (I_, S_).

(** [compute_tube(mass, span, g_load, D, d, strength)]. *)
Definition compute_tube (mass span g_load D d strength : Q) : result (Q * Q) :=
  let '(W, L, M, Mmm) := root_bending_moment mass span g_load g_default in
  '(I_, S_) <- tube_section D d ;;
  stress <- pydiv Mmm S_ ;;
  SF <- pydiv strength stress ;;
  Ok (stress, SF).

(** ** Strings *)

(** [str.isspace] on the code points below 256. *)
Definition is_space (c : ascii) : bool :=
  let n := nat_of_ascii c in
  ((9 <=? n) && (n <=? 13) || (28 <=? n) && (n <=? 32)
   || (n =? 133) || (n =? 160))%nat.

Fixpoint lstrip (s : string) : string :=
  match s with
  | EmptyString => EmptyString
  | String c s' => if is_space c then lstrip s' else s
  end.

Fixpoint rstrip (s : string) : string :=
  match s with
  | EmptyString => EmptyString
  | String c s' =>
      match rstrip s' with
      | EmptyString => if is_space c then EmptyString else String c EmptyString
      | r => String c r
      end
  end.

(** [s.strip()]. *)
Definition strip (s : string) : string := rstrip (lstrip s).

(** [s.split(sep)] for a separator of one character: never the empty list. *)
Fixpoint split (sep : ascii) (s : string) : list string :=
  match s with
  | EmptyString => [EmptyString]
  | String c s' =>
      if Ascii.eqb c sep then EmptyString :: split sep s'
      else match split sep s' with
           | w :: ws => String c w :: ws
           | [] => [String c EmptyString]
           end
  end.

(** [s.replace(" ", "")]. *)
Fixpoint replace_spaces (s : string) : string :=
  match s with
  | EmptyString => EmptyString
  | String c s' =>
      if Ascii.eqb c " " then replace_spaces s' else String c (replace_spaces s')
  end.

Definition newline : ascii := ascii_of_nat 10.

(** [d < D] on floats. *)
Definition Qltb (x y : Q) : bool := negb (Qle_bool y x).

(** ** Candidate parsing *)

Section Parsing.

(** The built-in [float(s)]: [None] stands for the [ValueError] that the
    bare [except] swallows. *)
Variable float : string -> option Q.

(** One iteration of the loop of [parse_candidates]: the list [tubes]
    after the line has been handled. *)
Definition parse_line (tubes : list (Q * Q)) (line : string) : list (Q * Q) :=
  match split "," (replace_spaces line) with
  | [p0; p1] =>
      match float p0 with
      | Some D =>
          match float p1 with
          | Some d => if Qltb d D then tubes ++ [(D, d)] else tubes
          | None => tubes
          end
      | None => tubes
      end
  | _ => tubes
  end.

(** [parse_candidates(text)]. *)
Definition parse_candidates (text : string) : list (Q * Q) :=
  fold_left parse_line (split newline (strip text)) [].

End Parsing.

(** A runnable [float] for signed decimal numerals such as [12], [-3],
    [+0.5], [7.] and [.25], surrounded by optional white space.  Python's
    [float] reads more than these (exponents, underscores, [inf], [nan]);
    the theorems below hold for every [float], this one only serves to run
    the model on concrete text. *)
Definition digit_of (c : ascii) : option Z :=
  let n := nat_of_ascii c in
  if ((48 <=? n) && (n <=? 57))%nat then Some (Z.of_nat (n - 48)) else None.

Fixpoint decimal_frac (s : string) (num : Z) (den : positive) (seen : nat)
  : option (Z * positive * nat) :=
  match s with
  | EmptyString => Some (num, den, seen)
  | String c s' =>
      match digit_of c with
      | Some k => decimal_frac s' (10 * num + k)%Z (10 * den)%positive (S seen)
      | None => None
      end
  end.

Fixpoint decimal_int (s : string) (num : Z) (seen : nat)
  : option (Z * positive * nat) :=
  match s with
  | EmptyString => Some (num, 1%positive, seen)
  | String c s' =>
      if Ascii.eqb c "." then decimal_frac s' num 1%positive seen
      else match digit_of c with
           | Some k => decimal_int s' (10 * num + k)%Z (S seen)
           | None => None
           end
  end.

Definition float_decimal (s : string) : option Q :=
  let s := strip s in
  let '(sign, body) :=
    match s with
    | String "-" b => ((-1)%Z, b)
    | String "+" b => (1%Z, b)
    | _ => (1%Z, s)
    end in
  match decimal_int body 0 0 with
  | Some (num, den, S _) => Some ((sign * num)%Z # den)
  | _ => None
  end.

(** ** Evaluation and ranking *)

(** One entry of [results], a row of the data frame. *)
Record row : Type := mk_row {
  Outer : Q;
  Inner : Q;
  Stress : Q;
  Safety_Factor : Q;
  Pass : bool
}.

(** What the [if run_btn:] block shows. *)
Inductive outcome : Type :=
| No_valid_tubes
| Uncaught (e : exn)
| Report (W L M : Q) (df : list row) (best : option row).

(** The loop [for D, d in tubes:] that fills [results]; an exception of
    [compute_tube] is not caught. *)
Fixpoint evaluate (mass span g_load strength target_SF : Q)
  (tubes : list (Q * Q)) (results : list row) : result (list row) :=
  match tubes with
  | [] => Ok results
  | (D, d) :: tubes' =>
      '(stress, SF) <- compute_tube mass span g_load D d strength ;;
      evaluate mass span g_load strength target_SF tubes'
        (results ++ [mk_row D d stress SF (Qle_bool target_SF SF)])
  end.

Section Run.

Variable float : string -> option Q.

(** [pd.DataFrame(results).sort_values("Outer (mm)")].  The call names no
    [kind], so pandas sorts with its default, quicksort: the rows come
    back in ascending order of the column, and the order among rows of
    equal outer diameter is the library's choice. *)
Variable sort_values : list row -> list row.

(** The block from [if not tubes:] to the recommendation, for the parsed
    list [tubes]. *)
Definition run_tubes (mass span g_load strength target_SF : Q)
  (tubes : list (Q * Q)) : outcome :=
  match tubes with
  | [] => No_valid_tubes
  | _ :: _ =>
      let '(W, L, M, Mmm) := root_bending_moment mass span g_load g_default in
      match evaluate mass span g_load strength target_SF tubes [] with
      | Raise e => Uncaught e
      | Ok results =>
          let df := sort_values results in
          let good := filter Pass df in
          Report W L M df (hd_error good)
      end
  end.

(** The [if run_btn:] block. *)
Definition run (mass span g_load strength target_SF : Q)
  (tube_text : string) : outcome :=
  run_tubes mass span g_load strength target_SF
    (parse_candidates float tube_text).

End Run.

(** Two sorts by outer diameter, both insertion sorts: the first keeps rows
    of equal outer diameter in their order, the second reverses them. *)
Fixpoint insert_row (before : Q -> Q -> bool) (r : row) (l : list row)
  : list row :=
  match l with
  | [] => [r]
  | y :: l' =>
      if before (Outer r) (Outer y) then r :: l
      else y :: insert_row before r l'
  end.

Definition sort_values_stable (l : list row) : list row :=
  fold_right (insert_row Qle_bool) [] l.

Definition sort_values_reversing (l : list row) : list row :=
  fold_right (insert_row Qltb) [] l.

(** A text of several lines. *)
Definition unlines (lines : list string) : string :=
  String.concat (String newline EmptyString) lines.

(** The default candidate list of the text area. *)
Definition text_default : string :=
  unlines ["8,6"; "10,8"; "12,8"; "14,10"; "16,12"; "18,14"]%string.

(** ** Vocabulary of the statements *)

(** The section modulus that [tube_section] computes when it returns. *)
Definition modulus (D d : Q) : Q := math_pi / 64 * (D ^ 4 - d ^ 4) / (D / 2).

Section Entries.

Variable float : string -> option Q.

(** The (outer, inner) pair that a line of the text area denotes: two
    fields around one comma, both read by [float]. *)
Definition read_line (line : string) : option (Q * Q) :=
  match split "," (replace_spaces line) with
  | [p0; p1] =>
      match float p0, float p1 with
      | Some D, Some d => Some (D, d)
      | _, _ => None
      end
  | _ => None
  end.

(** The candidate entries of a text, in the order of their lines. *)
Definition entries (text : string) : list (Q * Q) :=
  flat_map (fun line => match read_line line with
                        | Some t => [t]
                        | None => []
                        end)
           (split newline (strip text)).

End Entries.

(** The invariant of a tube geometry: [0 < inner < outer]. *)
Definition valid_tube (t : Q * Q) : Prop := 0 < snd t /\ snd t < fst t.

(** [inner < outer], the test of [parse_candidates]. *)
Definition inner_lt_outer (t : Q * Q) : bool := Qltb (snd t) (fst t).

(** The (outer, inner) pair of a row. *)
Definition geometry (r : row) : Q * Q := (Outer r, Inner r).

(** Row [r] is what the evaluation loop appends for tube [t]. *)
Definition evaluated (mass span g_load strength target_SF : Q)
  (t : Q * Q) (r : row) : Prop :=
  geometry r = t /\
  compute_tube mass span g_load (fst t) (snd t) strength
  = Ok (Stress r, Safety_Factor r) /\
  Pass r = Qle_bool target_SF (Safety_Factor r).

Definition by_outer (a b : row) : Prop := Outer a <= Outer b.

(** What [sort_values] is relied on for: the rows come back rearranged in
    ascending order of the outer diameter. *)
Definition sorts_by_outer (sort_values : list row -> list row) : Prop :=
  forall l, Permutation (sort_values l) l /\ Sorted by_outer (sort_values l).

(** Row [r] is the first row of [df] whose [Pass] is true. *)
Definition first_passing (df : list row) (r : row) : Prop :=
  exists l1 l2,
    df = l1 ++ r :: l2 /\ Forall (fun x => Pass x = false) l1 /\ Pass r = true.


(** ** Vocabulary of the further properties *)

(** The number of occurrences of a character. *)
Fixpoint count_char (c : ascii) (s : string) : nat :=
  match s with
  | EmptyString => 0
  | String a s' => (if Ascii.eqb a c then 1 else 0) + count_char c s'
  end.

(** Every character is white space. *)
Fixpoint all_space (s : string) : bool :=
  match s with
  | EmptyString => true
  | String c s' => is_space c && all_space s'
  end.

(** The first character exists and is not white space. *)
Definition starts_nonspace (s : string) : bool :=
  match s with
  | EmptyString => false
  | String c _ => negb (is_space c)
  end.

(** The last character exists and is not white space. *)
Fixpoint ends_nonspace (s : string) : bool :=
  match s with
  | EmptyString => false
  | String c EmptyString => negb (is_space c)
  | String _ s' => ends_nonspace s'
  end.

(** A line as one types it: no line break inside, no white space at its
    ends. *)
Definition tidy_line (l : string) : Prop :=
  count_char newline l = 0%nat /\
  starts_nonspace l = true /\ ends_nonspace l = true.

(** [int(x)] on a float: the integer part, rounded toward zero. *)
Definition py_int (x : Q) : Z := Z.quot (Qnum x) (Zpos (Qden x)).

(** The two diameters that the message "Recommended: ... x ... mm" shows
    for the row [best]. *)
Definition shown_size (best : row) : Z * Z :=
  (py_int (Outer best), py_int (Inner best)).

(** ** The physics functions in binary64 *)

Module Binary64.

Local Open Scope float_scope.

(** [x / y] on Python floats: the quotient rounded to binary64, and
    [ZeroDivisionError] when [y] is [0.0] or [-0.0]. *)
Definition pydiv (x y : float) : result float :=
  if y =? 0 then Raise ZeroDivisionError else Ok (x / y).

(** [math.pi]. *)
Definition math_pi : float := 0x1.921fb54442d18p+1.

(** The default value of the parameter [g] of [root_bending_moment]. *)
Definition g_default : float := 9.81.

(** A runnable [pow(x, 4.0)] for a finite [x]: the fourth power rounded to
    the nearest binary64 number, infinite when it is out of range.  The
    theorems below hold for every platform [pow]; this one serves to run
    the model. *)
Definition pow_rounded (x w : float) : float :=
  match FloatOps.Prim2SF x with
  | SpecFloat.S754_finite _ m e =>
      FloatOps.SF2Prim
        (SpecFloat.binary_normalize FloatOps.prec FloatOps.emax (Zpos m ^ 4)%Z (4 * e)%Z false)
  | _ => x
  end.

Section Physics.

(** The platform's [pow], which CPython calls for [x ** w]. *)
Variable libm_pow : float -> float -> float.

(** [x ** 4], as [float_pow] of CPython computes it for the exponent [4.0]:
    a NaN is returned as it is, an infinity gives [inf], a zero gives
    [0.0], the sign of [x] is dropped (the exponent is even), [1.0] gives
    [1.0]; otherwise [pow] is called, and a result out of range raises
    [OverflowError]. *)
Definition pypow4 (x : float) : result float :=
  if is_nan x then Ok x
  else if is_infinity x then Ok (abs x)
  else if x =? 0 then Ok 0
  else
    let iv := abs x in
    if iv =? 1 then Ok 1
    else
      let ix := libm_pow iv 4 in
      if is_infinity ix then Raise OverflowError else Ok ix.

(** [root_bending_moment(mass_kg, span_m, load_factor, g=9.81)]. *)
Definition root_bending_moment (mass_kg span_m load_factor g : float)
  : float * float * float * float :=
  let W := mass_kg * g in
  let L := W * load_factor in
  let M := L * span_m / 8.0 in
  (W, L, M, M * 1000).

(** [tube_section(D, d)]; the source's [I] and [S] are written [I_] and
    [S_]. *)
Definition tube_section (D d : float) : result (float * float) :=
  D4 <- pypow4 D ;;
  d4 <- pypow4 d ;;
  let I_ := math_pi / 64 * (D4 - d4) in
  let c := D / 2 in
  S_ <- pydiv I_ c ;;
  Ok (I_, S_).

(** [compute_tube(mass, span, g_load, D, d, strength)]. *)
Definition compute_tube (mass span g_load D d strength : float)
  : result (float * float) :=
  let '(W, L, M, Mmm) := root_bending_moment mass span g_load g_default in
  '(I_, S_) <- tube_section D d ;;
  stress <- pydiv Mmm S_ ;;
  SF <- pydiv strength stress ;;
  Ok (stress, SF).

End Physics.

End Binary64.

(** ** The default sort of pandas

    [df.sort_values("Outer (mm)")] names no [kind]; pandas then calls
    [argsort(kind="quicksort")] of numpy on the column and takes the rows
    in the order of the indices that come back.  What follows transcribes
    numpy's portable quicksort for index arrays ([aquicksort] and
    [aheapsort] of [npysort]): an introsort, with a median of three, an
    insertion sort for at most 17 elements and a heap sort once the depth
    limit is used up.  Positions are integers, the array [tosort] is a
    list of element numbers, and [less i j] compares the keys of the
    elements numbered [i] and [j]. *)

Module Numpy.

Local Open Scope Z_scope.

Section Argsort.

Variable less : nat -> nat -> bool.




















End Argsort.

End Numpy.


(** ** More vocabulary of the statements *)

(** [compute_tube] returns for the tube [t]. *)
Definition returns_for (mass span g_load strength : Q) (t : Q * Q) : Prop :=
  exists r, compute_tube mass span g_load (fst t) (snd t) strength = Ok r.



(** * Properties *)

(** ** Arithmetic helpers of the exact reading *)

Lemma pydiv_ok (x y : Q) : ~ y == 0 -> pydiv x y = Ok (x / y).
Proof.
  intros Hy. unfold pydiv.
  destruct (Qeq_bool y 0) eqn:E; [|reflexivity].
  apply Qeq_bool_iff in E. contradiction.
Qed.

Lemma pydiv_zero (x y : Q) : y == 0 -> pydiv x y = Raise ZeroDivisionError.
Proof.
  intros Hy. unfold pydiv.
  apply Qeq_bool_iff in Hy. now rewrite Hy.
Qed.

Lemma math_pi_pos : 0 < math_pi.
Proof. reflexivity. Qed.



Lemma Qdiv_pos (a b : Q) : 0 < a -> 0 < b -> 0 < a / b.
Proof.
  intros Ha Hb. apply Qlt_shift_div_l; [assumption|]. now rewrite Qmult_0_l.
Qed.





Lemma Qdiv_neg (a b : Q) : 0 < a -> b < 0 -> a / b < 0.
Proof.
  intros Ha Hb.
  assert (E : a / b == - (a / - b)) by (field; lra).
  rewrite E.
  assert (0 < a / - b) by (apply Qdiv_pos; lra).
  lra.
Qed.




(** ** LoadModel *)

Example root_bending_moment_scenario :
  exists W L M Mmm,
    root_bending_moment 5.0 2.0 3.0 g_default = (W, L, M, Mmm) /\
    W == 49.05 /\ L == 147.15 /\ M == 36.7875 /\ Mmm == 36787.5.
Proof. do 4 eexists. repeat split; reflexivity. Qed.

(** C1: for every mass [m], span [s] and load factor [n] (positive or not),
    [root_bending_moment] with the default [g] returns the weight
    [m * 9.81], the limit load [weight * n] and the root bending moment
    [(m * 9.81 * n * s) / 8]. *)
Theorem C1_root_bending_moment (m s n : Q) :
  exists W L M Mmm,
    root_bending_moment m s n g_default = (W, L, M, Mmm) /\
    W == m * 9.81 /\
    L == W * n /\
    M == (m * 9.81 * n * s) / 8.
Proof.
  unfold root_bending_moment, g_default.
  do 4 eexists. split; [reflexivity|].
  repeat split; try reflexivity.
  field.
Qed.

(** ** SectionEvaluator

    What [tube_section] and [compute_tube] return and raise is stated on
    the binary64 reading. *)

Lemma b64_pydiv_ok (x y q : float) :
  Binary64.pydiv x y = Ok q <-> (y =? 0)%float = false /\ q = (x / y)%float.
Proof.
  unfold Binary64.pydiv. destruct (y =? 0)%float.
  - split; [discriminate|]. intros [H _]. discriminate.
  - split.
    + intros [= <-]. now split.
    + intros [_ ->]. reflexivity.
Qed.

Lemma b64_negative_not_zero (x : float) :
  (x <? 0)%float = true -> (x =? 0)%float = false.
Proof.
  rewrite FloatAxioms.ltb_spec, FloatAxioms.eqb_spec.
  unfold SpecFloat.SFltb, SpecFloat.SFeqb.
  destruct (SpecFloat.SFcompare (FloatOps.Prim2SF x) (FloatOps.Prim2SF 0)) as [[| |]|];
    (discriminate || reflexivity).
Qed.

Example b64_tube_section_12_8 :
  Binary64.tube_section Binary64.pow_rounded 12 8
  = Ok (816.81408993334617, 136.1356816555577)%float.
Proof. vm_compute. reflexivity. Qed.

Example b64_compute_tube_12_8 :
  Binary64.compute_tube Binary64.pow_rounded 5 2 3 12 8 600
  = Ok (270.22672933814306, 2.2203577028429393)%float.
Proof. vm_compute. reflexivity. Qed.

(** The smallest positive float as outer diameter: its half is rounded to
    zero and [tube_section] raises [ZeroDivisionError]. *)
Example b64_tube_section_tiny :
  (0 <? 5e-324)%float = true /\
  Binary64.tube_section Binary64.pow_rounded 5e-324 0 = Raise ZeroDivisionError.
Proof. split; vm_compute; reflexivity. Qed.




(** C3, as the specification has it, fails: for the valid input with the
    tube 1e100 x 1 [compute_tube] raises [OverflowError], and for the tube
    1e-100 x 1e-101 both fourth powers are rounded to zero, the section
    modulus is zero and it raises [ZeroDivisionError]. *)
Lemma C3_compute_tube_raises :
  Binary64.compute_tube Binary64.pow_rounded 5 2 3 1e100 1 600
  = Raise OverflowError /\
  (0 <? 1e-101)%float = true /\ (1e-101 <? 1e-100)%float = true /\
  Binary64.compute_tube Binary64.pow_rounded 5 2 3 1e-100 1e-101 600
  = Raise ZeroDivisionError.
Proof. repeat split; vm_compute; reflexivity. Qed.

(** C3, amended: [compute_tube] returns exactly when [tube_section] returns
    a section modulus that is not zero and the stress is not zero; the
    stress is then the root moment in N.mm (the root moment in N.m times
    1000) divided by the section modulus in mm^3, and the safety factor the
    allowable strength divided by that stress, every operation rounded to
    binary64. *)
Theorem C3_compute_tube
  (libm_pow : float -> float -> float)
  (mass span g_load D d strength stress SF : float) :
  Binary64.compute_tube libm_pow mass span g_load D d strength = Ok (stress, SF)
  <-> exists W L M Mmm I_ S_,
        Binary64.root_bending_moment mass span g_load Binary64.g_default
        = (W, L, M, Mmm) /\
        Binary64.tube_section libm_pow D d = Ok (I_, S_) /\
        (S_ =? 0)%float = false /\
        stress = (M * 1000 / S_)%float /\
        (stress =? 0)%float = false /\
        SF = (strength / stress)%float.
Proof.
  unfold Binary64.compute_tube, Binary64.root_bending_moment. split.
  - destruct (Binary64.tube_section libm_pow D d) as [[I_ S_]|e]; cbn [bind];
      [|discriminate].
    destruct (Binary64.pydiv
                (mass * Binary64.g_default * g_load * span / 8.0 * 1000)%float S_)
      as [st|e] eqn:E1; cbn [bind]; [|discriminate].
    apply b64_pydiv_ok in E1. destruct E1 as [HS ->].
    destruct (Binary64.pydiv strength
                (mass * Binary64.g_default * g_load * span / 8.0 * 1000 / S_)%float)
      as [sf|e] eqn:E2; cbn [bind]; [|discriminate].
    apply b64_pydiv_ok in E2. destruct E2 as [Hst ->].
    intros [= <- <-]. do 4 eexists. exists I_, S_.
    repeat split; assumption.
  - intros (W & L & M & Mmm & I_ & S_ & [= <- <- <- <-] & -> & HS & -> & Hst & ->).
    cbn [bind]. unfold Binary64.pydiv. rewrite HS. cbn [bind]. now rewrite Hst.
Qed.

Lemma C3_compute_tube_witness :
  exists stress SF,
    Binary64.compute_tube Binary64.pow_rounded 5 2 3 12 8 600 = Ok (stress, SF) /\
    stress = (5 * Binary64.g_default * 3 * 2 / 8.0 * 1000 / 136.1356816555577)%float /\
    SF = (600 / stress)%float.
Proof.
  do 2 eexists. split; [|split; reflexivity].
  apply (C3_compute_tube Binary64.pow_rounded 5 2 3 12 8 600).
  do 4 eexists. exists 816.81408993334617%float, 136.1356816555577%float.
  repeat split; vm_compute; reflexivity.
Defined.




(** C8, as the specification has it, fails: the tube 8 x 10 has a negative
    section modulus, and [compute_tube] returns a negative stress and a
    negative safety factor for it instead of failing. *)
Lemma C8_negative_modulus_is_returned :
  exists I_ S_ stress SF,
    Binary64.tube_section Binary64.pow_rounded 8 10 = Ok (I_, S_) /\
    (S_ <? 0)%float = true /\
    Binary64.compute_tube Binary64.pow_rounded 5 2 3 8 10 600
    = Ok (stress, SF) /\
    (stress <? 0)%float = true /\ (SF <? 0)%float = true.
Proof.
  do 4 eexists.
  split; [vm_compute; reflexivity|]. split; [reflexivity|].
  split; [vm_compute; reflexivity|]. split; reflexivity.
Qed.

(** Such a geometry can come from the text area: the line [5,-6] passes
    the test [d < D], and its row has a negative stress. *)
Example run_negative_modulus_reported :
  exists W L M r,
    run float_decimal sort_values_stable 5 2 3 600 2 "5,-6"
    = Report W L M [r] None /\
    geometry r = (5, -6)%Q /\ (Stress r < 0)%Q /\ Pass r = false.
Proof.
  do 4 eexists. split; [vm_compute; reflexivity|].
  repeat split.
Qed.

(** C8, amended: [compute_tube] checks nothing about the geometry.  When
    the section modulus that [tube_section] returns is zero, the division
    [Mmm / S] raises [ZeroDivisionError]; when it is negative, the
    evaluation goes on as for any other section modulus: it returns the
    stress [Mmm / S] and the safety factor [strength / stress], unless that
    stress is zero. *)
Theorem C8_compute_tube_degenerate
  (libm_pow : float -> float -> float)
  (mass span g_load D d strength I_ S_ : float) :
  Binary64.tube_section libm_pow D d = Ok (I_, S_) ->
  let Mmm := (mass * Binary64.g_default * g_load * span / 8.0 * 1000)%float in
  ((S_ =? 0)%float = true ->
   Binary64.compute_tube libm_pow mass span g_load D d strength
   = Raise ZeroDivisionError) /\
  ((S_ <? 0)%float = true ->
   Binary64.compute_tube libm_pow mass span g_load D d strength
   = if (Mmm / S_ =? 0)%float then Raise ZeroDivisionError
     else Ok ((Mmm / S_)%float, (strength / (Mmm / S_))%float)).
Proof.
  intros Hsec Mmm.
  unfold Binary64.compute_tube, Binary64.root_bending_moment.
  rewrite Hsec. cbn [bind]. fold Mmm. unfold Binary64.pydiv.
  split.
  - intros HS. now rewrite HS.
  - intros HS. rewrite (b64_negative_not_zero _ HS). cbn [bind].
    now destruct (Mmm / S_ =? 0)%float.
Qed.

Lemma C8_compute_tube_degenerate_witness :
  Binary64.compute_tube Binary64.pow_rounded 5 2 3 12 12 600
  = Raise ZeroDivisionError /\
  Binary64.compute_tube Binary64.pow_rounded 5 2 3 8 10 600
  = Ok (-507.74308674194901, -1.1816999889649682)%float.
Proof.
  split.
  - destruct (Binary64.tube_section Binary64.pow_rounded 12 12)
      as [[I_ S_]|e] eqn:E; [|vm_compute in E; discriminate E].
    apply (C8_compute_tube_degenerate Binary64.pow_rounded 5 2 3 12 12 600
             I_ S_ E).
    vm_compute in E. injection E as <- <-. vm_compute. reflexivity.
  - destruct (Binary64.tube_section Binary64.pow_rounded 8 10)
      as [[I_ S_]|e] eqn:E; [|vm_compute in E; discriminate E].
    destruct (C8_compute_tube_degenerate Binary64.pow_rounded 5 2 3 8 10 600
                I_ S_ E) as [_ H].
    rewrite H; vm_compute in E; injection E as <- <-; vm_compute; reflexivity.
Defined.

(** ** Candidate parsing *)

Example parse_default :
  parse_candidates float_decimal text_default
  = [(8, 6); (10, 8); (12, 8); (14, 10); (16, 12); (18, 14)].
Proof. vm_compute. reflexivity. Qed.

Example parse_lenient :
  parse_candidates float_decimal
    (unlines ["  12 , 8 "; "oops"; "10,12"; "9,9"; "1,2,3"; "14.5,+10."]%string)
  = [(12, 8); (145 # 10, 10)].
Proof. vm_compute. reflexivity. Qed.

Section ParsingFacts.

Variable float : string -> option Q.

Lemma parse_line_read (tubes : list (Q * Q)) (line : string) :
  parse_line float tubes line
  = tubes ++ filter inner_lt_outer
               match read_line float line with Some t => [t] | None => [] end.
Proof.
  unfold parse_line, read_line.
  destruct (split "," (replace_spaces line)) as [|p0 [|p1 [|p2 ps]]];
    try (now rewrite app_nil_r).
  destruct (float p0) as [D|]; [|now rewrite app_nil_r].
  destruct (float p1) as [d|]; [|now rewrite app_nil_r].
  cbn [filter]. unfold inner_lt_outer. cbn [fst snd].
  destruct (Qltb d D); [reflexivity|now rewrite app_nil_r].
Qed.

Lemma parse_loop_entries (lines : list string) (tubes : list (Q * Q)) :
  fold_left (parse_line float) lines tubes
  = tubes ++ filter inner_lt_outer
               (flat_map (fun line => match read_line float line with
                                      | Some t => [t]
                                      | None => []
                                      end) lines).
Proof.
  revert tubes. induction lines as [|line lines IH]; intros tubes; cbn.
  - now rewrite app_nil_r.
  - rewrite IH, parse_line_read, filter_app, app_assoc. reflexivity.
Qed.

(** [parse_candidates] keeps, in order, the entries with inner < outer. *)
Lemma parse_candidates_entries (text : string) :
  parse_candidates float text = filter inner_lt_outer (entries float text).
Proof. unfold parse_candidates, entries. now rewrite parse_loop_entries. Qed.

End ParsingFacts.

Lemma Qltb_lt (x y : Q) : Qltb x y = true <-> x < y.
Proof.
  unfold Qltb. rewrite negb_true_iff.
  split.
  - intros E. apply Qnot_le_lt. intros H. apply Qle_bool_iff in H. congruence.
  - intros H. destruct (Qle_bool y x) eqn:E; [|reflexivity].
    apply Qle_bool_iff in E. lra.
Qed.

(** C9, as the specification has it, fails: the line [5,-3] is parsed to
    the pair (5, -3), whose inner diameter is negative, and [0,-1] to a
    pair whose outer diameter is zero. *)
Lemma C9_nonpositive_diameters_are_parsed :
  parse_candidates float_decimal "5,-3"%string = [(5, -3)] /\
  parse_candidates float_decimal "0,-1"%string = [(0, -1)] /\
  ~ Forall valid_tube (parse_candidates float_decimal "5,-3"%string).
Proof.
  split; [vm_compute; reflexivity|].
  split; [vm_compute; reflexivity|].
  intros H. vm_compute in H. inversion H as [|? ? [Hpos _] _]; subst.
  discriminate Hpos.
Qed.

(** C9, amended: for every text (and whatever [float] reads), every
    (outer, inner) pair produced by [parse_candidates] has its inner
    diameter strictly below its outer diameter; the sign of the diameters
    is not looked at. *)
Theorem C9_parsed_inner_lt_outer (float : string -> option Q) (text : string) :
  Forall (fun t => snd t < fst t) (parse_candidates float text).
Proof.
  rewrite parse_candidates_entries.
  apply Forall_forall. intros t Ht.
  apply filter_In in Ht. destruct Ht as [_ Ht].
  now apply Qltb_lt.
Qed.

(** ** Evaluation loop *)

Section Evaluation.

Variables mass span g_load strength target_SF : Q.

Local Abbreviation evaluate' := (evaluate mass span g_load strength target_SF).
Local Abbreviation evaluated' := (evaluated mass span g_load strength target_SF).

(** When the loop ends without an exception, it has appended one row per
    tube, in the order of the tubes. *)
Lemma evaluate_rows (tubes : list (Q * Q)) :
  forall acc results,
    evaluate' tubes acc = Ok results ->
    exists rows, results = acc ++ rows /\ Forall2 evaluated' tubes rows.
Proof.
  induction tubes as [|[D d] tubes IH]; intros acc results H;
    cbn [evaluate] in H.
  - injection H as <-. exists []. split; [now rewrite app_nil_r|constructor].
  - destruct (compute_tube mass span g_load D d strength) as [[stress SF]|e] eqn:E;
      cbn [bind] in H; [|discriminate].
    apply IH in H. destruct H as (rows & -> & Hrows).
    exists (mk_row D d stress SF (Qle_bool target_SF SF) :: rows).
    split; [now rewrite <- app_assoc|].
    constructor; [|assumption].
    repeat split; assumption.
Qed.

End Evaluation.

(** ** Selection *)

Lemma first_passing_hd (df : list row) (r : row) :
  hd_error (filter Pass df) = Some r -> first_passing df r.
Proof.
  induction df as [|x df IH]; cbn; [discriminate|].
  destruct (Pass x) eqn:E; cbn.
  - intros [= <-]. exists [], df. repeat split; [constructor|assumption].
  - intros H. destruct (IH H) as (l1 & l2 & -> & Hl1 & Hr).
    exists (x :: l1), l2. repeat split; [now constructor|assumption].
Qed.

Lemma none_passing_hd (df : list row) :
  hd_error (filter Pass df) = None <-> Forall (fun x => Pass x = false) df.
Proof.
  induction df as [|x df IH]; cbn.
  - split; [constructor|reflexivity].
  - destruct (Pass x) eqn:E; cbn.
    + split; [discriminate|]. intros H. inversion H; congruence.
    + rewrite IH. split; [now constructor|]. intros H. now inversion H.
Qed.

Lemma by_outer_trans : RelationClasses.Transitive by_outer.
Proof. intros a b c. unfold by_outer. apply Qle_trans. Qed.

(** In a table sorted by outer diameter, the first passing row has the
    smallest outer diameter of all passing rows. *)
Lemma first_passing_smallest (df : list row) (r : row) :
  Sorted by_outer df -> first_passing df r ->
  forall r', In r' df -> Pass r' = true -> Outer r <= Outer r'.
Proof.
  intros Hs (l1 & l2 & -> & Hl1 & Hr) r' Hin Hp.
  apply Sorted_StronglySorted in Hs; [|exact by_outer_trans].
  apply in_app_or in Hin. destruct Hin as [Hin|[<-|Hin]].
  - rewrite Forall_forall in Hl1. apply Hl1 in Hin. congruence.
  - apply Qle_refl.
  - clear Hl1. induction l1 as [|x l1 IH]; cbn in Hs.
    + inversion Hs as [|? ? _ Hall]; subst.
      rewrite Forall_forall in Hall. now apply Hall.
    + inversion Hs; subst. now apply IH.
Qed.

(** ** The two insertion sorts *)

Section InsertionSort.

Variable before : Q -> Q -> bool.
Hypothesis before_true : forall x y, before x y = true -> x <= y.
Hypothesis before_false : forall x y, before x y = false -> y <= x.

Lemma insert_row_perm (r : row) (l : list row) :
  Permutation (insert_row before r l) (r :: l).
Proof.
  induction l as [|y l IH]; cbn; [reflexivity|].
  destruct (before (Outer r) (Outer y)); [reflexivity|].
  rewrite IH. apply perm_swap.
Qed.

Lemma insert_row_hd (r y : row) (l : list row) :
  by_outer y r -> HdRel by_outer y l -> HdRel by_outer y (insert_row before r l).
Proof.
  intros Hyr Hl. destruct l as [|z l]; cbn; [now constructor|].
  destruct (before (Outer r) (Outer z)); constructor; [assumption|].
  now inversion Hl.
Qed.

Lemma insert_row_sorted (r : row) (l : list row) :
  Sorted by_outer l -> Sorted by_outer (insert_row before r l).
Proof.
  induction 1 as [|y l Hl IH Hhd]; cbn; [repeat constructor|].
  destruct (before (Outer r) (Outer y)) eqn:E.
  - constructor; [now constructor|]. constructor. now apply before_true.
  - constructor; [assumption|].
    apply insert_row_hd; [|assumption]. now apply before_false.
Qed.

Lemma insertion_sorts_by_outer :
  sorts_by_outer (fold_right (insert_row before) []).
Proof.
  intros l. induction l as [|r l [IHp IHs]]; cbn.
  - split; [reflexivity|constructor].
  - split; [|now apply insert_row_sorted].
    rewrite insert_row_perm. now constructor.
Qed.

End InsertionSort.

Lemma sort_values_stable_sorts : sorts_by_outer sort_values_stable.
Proof.
  apply insertion_sorts_by_outer.
  - intros x y H. now apply Qle_bool_iff.
  - intros x y H. apply Qlt_le_weak, Qltb_lt.
    unfold Qltb. now rewrite H.
Qed.

Lemma sort_values_reversing_sorts : sorts_by_outer sort_values_reversing.
Proof.
  apply insertion_sorts_by_outer.
  - intros x y H. now apply Qlt_le_weak, Qltb_lt.
  - intros x y H. unfold Qltb in H. apply negb_false_iff in H.
    now apply Qle_bool_iff.
Qed.

(** ** CandidateRanker *)

Section RunFacts.

Variable sort_values : list row -> list row.
Variables mass span g_load strength target_SF : Q.

Local Abbreviation run_tubes' :=
  (run_tubes sort_values mass span g_load strength target_SF).
Local Abbreviation evaluate' := (evaluate mass span g_load strength target_SF).

(** What a report is made of. *)
Lemma run_tubes_report (tubes : list (Q * Q)) W L M df best :
  run_tubes' tubes = Report W L M df best ->
  exists results,
    evaluate' tubes [] = Ok results /\
    df = sort_values results /\
    best = hd_error (filter Pass df).
Proof.
  unfold run_tubes, root_bending_moment.
  destruct tubes as [|t tubes]; [discriminate|].
  destruct (evaluate' (t :: tubes) []) as [results|e]; [|discriminate].
  intros [= <- <- <- <- <-]. now exists results.
Qed.

(** The rows of a report are the evaluations of the tubes, rearranged. *)
Lemma report_rows (tubes : list (Q * Q)) W L M df best :
  (forall l, Permutation (sort_values l) l) ->
  run_tubes' tubes = Report W L M df best ->
  exists results,
    Forall2 (evaluated mass span g_load strength target_SF) tubes results /\
    Permutation df results.
Proof.
  intros Hperm H.
  apply run_tubes_report in H. destruct H as (results & E & -> & _).
  apply evaluate_rows in E. destruct E as (rows & -> & Hrows).
  exists rows. split; [assumption|apply Hperm].
Qed.

End RunFacts.

Lemma Forall2_geometry (mass span g_load strength target_SF : Q) tubes rows :
  Forall2 (evaluated mass span g_load strength target_SF) tubes rows ->
  map geometry rows = tubes.
Proof.
  induction 1 as [|t r tubes rows (Hg & _) _ IH]; cbn; [reflexivity|].
  now rewrite Hg, IH.
Qed.

Lemma Forall2_In_r {A B : Type} (R : A -> B -> Prop) l1 l2 b :
  Forall2 R l1 l2 -> In b l2 -> exists a, In a l1 /\ R a b.
Proof.
  induction 1 as [|x y l1 l2 Hxy _ IH]; cbn; [contradiction|].
  intros [<-|Hin].
  - exists x. split; [now left|assumption].
  - destruct (IH Hin) as (a & Ha & HR). exists a. split; [now right|assumption].
Qed.

Example run_default :
  exists W L M df r,
    run float_decimal sort_values_stable 5 2 3 600 2 text_default
    = Report W L M df (Some r) /\
    map geometry df = [(8, 6); (10, 8); (12, 8); (14, 10); (16, 12); (18, 14)] /\
    map Pass df = [false; false; true; true; true; true] /\
    geometry r = (12, 8) /\
    270 < Stress r /\ Stress r < 271 /\
    2.22 < Safety_Factor r /\ Safety_Factor r < 2.23.
Proof.
  do 5 eexists. split; [vm_compute; reflexivity|].
  repeat split; vm_compute; reflexivity.
Qed.

Section EvaluationOutcome.

Variables mass span g_load strength target_SF : Q.

Local Abbreviation evaluate' := (evaluate mass span g_load strength target_SF).
Local Abbreviation returns' := (returns_for mass span g_load strength).

(** The loop ends without an exception exactly when [compute_tube] returns
    for every tube. *)
Lemma evaluate_ok_iff (tubes : list (Q * Q)) (acc : list row) :
  (exists results, evaluate' tubes acc = Ok results) <-> Forall returns' tubes.
Proof.
  revert acc. induction tubes as [|[D d] tubes IH]; intros acc; cbn [evaluate].
  - split; [constructor|]. intros _. now exists acc.
  - destruct (compute_tube mass span g_load D d strength) as [[stress SF]|e] eqn:E;
      cbn [bind].
    + rewrite IH. split.
      * intros H. constructor; [|assumption]. now exists (stress, SF).
      * intros H. now inversion H.
    + split.
      * intros [results H]. discriminate.
      * intros H. inversion H as [|? ? [r Hr] _]; subst. cbn [fst snd] in Hr. congruence.
Qed.

(** The loop ends with the exception of the first tube for which
    [compute_tube] raises. *)
Lemma evaluate_raise_first (tubes : list (Q * Q)) (acc : list row) (e : exn) :
  evaluate' tubes acc = Raise e
  <-> exists l1 t l2,
        tubes = l1 ++ t :: l2 /\ Forall returns' l1 /\
        compute_tube mass span g_load (fst t) (snd t) strength = Raise e.
Proof.
  revert acc. induction tubes as [|[D d] tubes IH]; intros acc; cbn [evaluate].
  - split; [discriminate|].
    intros (l1 & t & l2 & H & _). now destruct l1.
  - destruct (compute_tube mass span g_load D d strength) as [[stress SF]|e'] eqn:E;
      cbn [bind].
    + rewrite IH. split.
      * intros (l1 & t & l2 & -> & Hl1 & Ht).
        exists ((D, d) :: l1), t, l2. repeat split; [|assumption].
        constructor; [|assumption]. now exists (stress, SF).
      * intros (l1 & t & l2 & Heq & Hl1 & Ht).
        destruct l1 as [|t1 l1]; cbn in Heq; injection Heq as <- ->.
        { cbn [fst snd] in Ht. congruence. }
        exists l1, t, l2. repeat split; [|assumption]. now inversion Hl1.
    + split.
      * intros [= <-]. exists [], (D, d), tubes. repeat split; [constructor|exact E].
      * intros (l1 & t & l2 & Heq & Hl1 & Ht).
        destruct l1 as [|t1 l1]; cbn in Heq; injection Heq as <- ->.
        { cbn [fst snd] in Ht. congruence. }
        inversion Hl1 as [|? ? [r Hr] _]; subst. cbn [fst snd] in Hr. congruence.
Qed.

End EvaluationOutcome.

Section RunOutcome.

Variable sort_values : list row -> list row.
Variables mass span g_load strength target_SF : Q.

Local Abbreviation run_tubes' :=
  (run_tubes sort_values mass span g_load strength target_SF).

(** The block gives a report exactly when there is a tube and
    [compute_tube] returns for every tube. *)
Lemma run_tubes_report_iff (tubes : list (Q * Q)) :
  (exists W L M df best, run_tubes' tubes = Report W L M df best)
  <-> tubes <> [] /\ Forall (returns_for mass span g_load strength) tubes.
Proof.
  rewrite <- (evaluate_ok_iff mass span g_load strength target_SF tubes []).
  unfold run_tubes, root_bending_moment.
  destruct tubes as [|t tubes].
  - split.
    + intros (W & L & M & df & best & H). discriminate.
    + intros [H _]. contradiction.
  - destruct (evaluate mass span g_load strength target_SF (t :: tubes) [])
      as [results|e].
    + split.
      * intros _. split; [discriminate|now exists results].
      * intros _. now do 5 eexists.
    + split.
      * intros (W & L & M & df & best & H). discriminate.
      * intros [_ [results H]]. discriminate.
Qed.

End RunOutcome.

Lemma run_tubes_uncaught (sort_values : list row -> list row)
  (mass span g_load strength target_SF : Q) (tubes : list (Q * Q)) (e : exn) :
  run_tubes sort_values mass span g_load strength target_SF tubes = Uncaught e
  <-> evaluate mass span g_load strength target_SF tubes [] = Raise e.
Proof.
  unfold run_tubes, root_bending_moment.
  destruct tubes as [|t tubes].
  - cbn. split; discriminate.
  - destruct (evaluate mass span g_load strength target_SF (t :: tubes) []);
      split; congruence.
Qed.

(** C4: the block gives a report exactly when the list has a tube and
    [compute_tube] returns for every tube; and in every report the table
    holds one row per tube in ascending order of outer diameter, a row
    passes exactly when its safety factor reaches the target, the
    recommendation is the first passing row of the table, which has the
    smallest outer diameter of all passing rows, and the recommendation is
    absent exactly when every row has [Pass] false. *)
Theorem C4_recommendation
  (sort_values : list row -> list row)
  (mass span g_load strength target_SF : Q) (tubes : list (Q * Q)) :
  sorts_by_outer sort_values ->
  ((exists W L M df best,
      run_tubes sort_values mass span g_load strength target_SF tubes
      = Report W L M df best)
   <-> tubes <> [] /\ Forall (returns_for mass span g_load strength) tubes) /\
  (forall W L M df best,
     run_tubes sort_values mass span g_load strength target_SF tubes
     = Report W L M df best ->
     Permutation (map geometry df) tubes /\
     Sorted by_outer df /\
     (forall r, In r df -> (Pass r = true <-> target_SF <= Safety_Factor r)) /\
     (forall r, best = Some r ->
                first_passing df r /\
                forall r', In r' df -> Pass r' = true -> Outer r <= Outer r') /\
     (best = None <-> Forall (fun r => Pass r = false) df)).
Proof.
  intros Hsort. split; [apply run_tubes_report_iff|].
  intros W L M df best Hrun.
  destruct (report_rows _ _ _ _ _ _ _ _ _ _ _ _ (fun l => proj1 (Hsort l)) Hrun)
    as (results & Hrows & Hperm).
  apply run_tubes_report in Hrun.
  destruct Hrun as (results' & _ & Hdf & ->).
  assert (Hsorted : Sorted by_outer df) by (subst df; apply Hsort).
  split.
  { rewrite <- (Forall2_geometry _ _ _ _ _ _ _ Hrows).
    now apply Permutation_map. }
  split; [assumption|].
  split.
  { intros r Hin.
    apply (Permutation_in _ Hperm) in Hin.
    destruct (Forall2_In_r _ _ _ _ Hrows Hin) as (t & _ & _ & _ & ->).
    apply Qle_bool_iff. }
  split.
  { intros r Hr. apply first_passing_hd in Hr.
    split; [assumption|]. now apply first_passing_smallest. }
  apply none_passing_hd.
Qed.

Lemma C4_recommendation_witness :
  exists W L M df best,
    run_tubes sort_values_stable 5 2 3 600 2 [(10, 8); (14, 10); (12, 8)]
    = Report W L M df best /\
    Sorted by_outer df /\
    (best = None <-> Forall (fun r => Pass r = false) df).
Proof.
  destruct (C4_recommendation sort_values_stable 5 2 3 600 2
              [(10, 8); (14, 10); (12, 8)] sort_values_stable_sorts)
    as [Hreport Hsel].
  destruct (proj2 Hreport) as (W & L & M & df & best & Hrun).
  { split; [discriminate|].
    repeat constructor; eexists; vm_compute; reflexivity. }
  exists W, L, M, df, best. split; [exact Hrun|].
  destruct (Hsel W L M df best Hrun) as (_ & Hs & _ & _ & Hnone).
  split; assumption.
Defined.

(** ** The stable sort and the sorts in ascending order *)















(** ** The whole block *)

(** An entry that passes the test [d < D] with a zero outer diameter makes
    [tube_section] divide by zero: the exception is not caught and ends the
    block. *)
Example run_zero_outer_uncaught :
  run float_decimal sort_values_stable 5 2 3 600 2
    (unlines ["0,-1"; "12,8"]%string)
  = Uncaught ZeroDivisionError.
Proof. vm_compute. reflexivity. Qed.

(** C7, as the specification has it, fails: in the text with the lines
    [10,12], [0,-1] and [12,8] the entry [10,12] is dropped, but the entry
    [0,-1] is kept (its inner diameter is below its outer one) and makes
    [tube_section] divide by zero; the exception ends the block, and the
    valid candidate [12,8] is never evaluated. *)
Lemma C7_kept_entry_aborts_the_list :
  parse_candidates float_decimal (unlines ["10,12"; "0,-1"; "12,8"]%string)
  = [(0, -1); (12, 8)] /\
  run float_decimal sort_values_stable 5 2 3 600 2
    (unlines ["10,12"; "0,-1"; "12,8"]%string)
  = Uncaught ZeroDivisionError.
Proof. split; vm_compute; reflexivity. Qed.

(** C7, amended: an entry whose inner diameter is not below its outer one
    is dropped by the parsing and never reaches the evaluation: the
    candidates are exactly the other entries of the text, in their order.
    The block reports all of them, each with the stress and the safety
    factor of [compute_tube], exactly when there is one and [compute_tube]
    returns for each; otherwise the first candidate for which it raises
    ends the block with its exception. *)
Theorem C7_bad_entries_skipped
  (float : string -> option Q) (sort_values : list row -> list row)
  (mass span g_load strength target_SF : Q) (text : string) :
  sorts_by_outer sort_values ->
  let kept := filter inner_lt_outer (entries float text) in
  parse_candidates float text = kept /\
  ((exists W L M df best,
      run float sort_values mass span g_load strength target_SF text
      = Report W L M df best)
   <-> kept <> [] /\ Forall (returns_for mass span g_load strength) kept) /\
  (forall W L M df best,
     run float sort_values mass span g_load strength target_SF text
     = Report W L M df best ->
     Permutation (map geometry df) kept /\
     Forall (fun r => compute_tube mass span g_load (Outer r) (Inner r) strength
                      = Ok (Stress r, Safety_Factor r)) df) /\
  (forall e,
     run float sort_values mass span g_load strength target_SF text
     = Uncaught e
     <-> exists l1 t l2,
           kept = l1 ++ t :: l2 /\
           Forall (returns_for mass span g_load strength) l1 /\
           compute_tube mass span g_load (fst t) (snd t) strength = Raise e).
Proof.
  intros Hsort kept.
  assert (Hparse : parse_candidates float text = kept)
    by apply parse_candidates_entries.
  split; [exact Hparse|].
  unfold run. rewrite Hparse.
  split; [apply run_tubes_report_iff|].
  split.
  - intros W L M df best Hrun.
    destruct (report_rows _ _ _ _ _ _ _ _ _ _ _ _ (fun l => proj1 (Hsort l)) Hrun)
      as (results & Hrows & Hperm).
    split.
    + rewrite <- (Forall2_geometry _ _ _ _ _ _ _ Hrows).
      now apply Permutation_map.
    + apply Forall_forall. intros r Hin.
      apply (Permutation_in _ Hperm) in Hin.
      destruct (Forall2_In_r _ _ _ _ Hrows Hin) as (t & _ & Hgeo & Hc & _).
      rewrite <- Hgeo in Hc. exact Hc.
  - intros e. rewrite run_tubes_uncaught. apply evaluate_raise_first.
Qed.

Lemma C7_bad_entries_skipped_witness :
  exists W L M df best,
    run float_decimal sort_values_stable 5 2 3 600 2
      (unlines ["14,10"; "10,12"; "9,9"; "12,8"]%string)
    = Report W L M df best /\
    Permutation (map geometry df) [(14, 10); (12, 8)].
Proof.
  destruct (C7_bad_entries_skipped float_decimal sort_values_stable
              5 2 3 600 2 (unlines ["14,10"; "10,12"; "9,9"; "12,8"]%string)
              sort_values_stable_sorts)
    as (_ & Hreport & Hrows & _).
  destruct (proj2 Hreport) as (W & L & M & df & best & Hrun).
  { split; [vm_compute; discriminate|].
    vm_compute filter. repeat constructor; eexists; vm_compute; reflexivity. }
  exists W, L, M, df, best. split; [exact Hrun|].
  exact (proj1 (Hrows W L M df best Hrun)).
Defined.

(** C10: the block stops with the error "No valid tubes!" exactly when the
    list of parsed candidates is empty; nothing is evaluated and nothing is
    recommended then. *)
Theorem C10_no_valid_tubes
  (float : string -> option Q) (sort_values : list row -> list row)
  (mass span g_load strength target_SF : Q) (text : string) :
  run float sort_values mass span g_load strength target_SF text
  = No_valid_tubes
  <-> parse_candidates float text = [].
Proof.
  unfold run, run_tubes, root_bending_moment.
  destruct (parse_candidates float text) as [|t tubes].
  - split; reflexivity.
  - destruct (evaluate _ _ _ _ _ (t :: tubes) []); split; discriminate.
Qed.

Lemma C10_no_valid_tubes_witness :
  run float_decimal sort_values_stable 5 2 3 600 2 (unlines ["10,12"; "oops"]%string) = No_valid_tubes.
Proof.
  apply (C10_no_valid_tubes float_decimal sort_values_stable 5 2 3 600 2).
  vm_compute. reflexivity.
Defined.

(** * Further properties *)

(** ** Division by zero in the exact reading *)

Lemma pydiv_ok_inv (x y q : Q) : pydiv x y = Ok q -> ~ y == 0 /\ q = x / y.
Proof.
  unfold pydiv. destruct (Qeq_bool y 0) eqn:E; [discriminate|].
  intros [= <-]. split; [|reflexivity].
  intros H. apply Qeq_bool_iff in H. congruence.
Qed.

Lemma half_zero (D : Q) : D / 2 == 0 <-> D == 0.
Proof.
  assert (E : D / 2 == D * (1 # 2)) by field.
  rewrite E. split; intros H; lra.
Qed.

Lemma Qdiv_zero_iff (a b : Q) : ~ b == 0 -> (a / b == 0 <-> a == 0).
Proof.
  intros Hb. split; intros H.
  - assert (E : a == a / b * b) by (field; exact Hb).
    rewrite E, H. ring.
  - rewrite H. field. exact Hb.
Qed.

(** What [compute_tube] returns in the exact reading, and when. *)
Lemma compute_tube_ok_iff (mass span g_load D d strength stress SF : Q) :
  let Mmm := mass * g_default * g_load * span / 8.0 * 1000 in
  compute_tube mass span g_load D d strength = Ok (stress, SF)
  <-> ~ D == 0 /\ ~ modulus D d == 0 /\ ~ Mmm == 0 /\
      stress = Mmm / modulus D d /\ SF = strength / stress.
Proof.
  intros Mmm. unfold compute_tube, root_bending_moment, tube_section.
  fold Mmm. fold (modulus D d).
  split.
  - intros H.
    destruct (pydiv (math_pi / 64 * (D ^ 4 - d ^ 4)) (D / 2)) as [S_|e] eqn:E1;
      cbn [bind] in H; [|discriminate].
    apply pydiv_ok_inv in E1. destruct E1 as [Hc ->].
    fold (modulus D d) in H.
    destruct (pydiv Mmm (modulus D d)) as [st|e] eqn:E2;
      cbn [bind] in H; [|discriminate].
    apply pydiv_ok_inv in E2. destruct E2 as [HS ->].
    destruct (pydiv strength (Mmm / modulus D d)) as [sf|e] eqn:E3;
      cbn [bind] in H; [|discriminate].
    apply pydiv_ok_inv in E3. destruct E3 as [Hst ->].
    injection H as <- <-.
    rewrite half_zero in Hc. rewrite (Qdiv_zero_iff _ _ HS) in Hst.
    repeat split; assumption.
  - intros (HD & HS & HM & -> & ->).
    rewrite pydiv_ok by now rewrite half_zero.
    cbn [bind]. fold (modulus D d).
    rewrite pydiv_ok by assumption. cbn [bind].
    rewrite pydiv_ok by now rewrite (Qdiv_zero_iff _ _ HS).
    reflexivity.
Qed.

(** ** Stress and safety factor *)

(** X7: [compute_tube] does not see the sign of the inner diameter: when
    it returns for [d], it returns for [- d] with an equal stress and an
    equal safety factor. *)
Theorem X7_inner_sign_irrelevant (mass span g_load D d strength stress SF : Q) :
  compute_tube mass span g_load D d strength = Ok (stress, SF) ->
  exists stress' SF',
    compute_tube mass span g_load D (- d) strength = Ok (stress', SF') /\
    stress' == stress /\ SF' == SF.
Proof.
  intros H. apply compute_tube_ok_iff in H.
  destruct H as (HD & HS & HM & -> & ->).
  set (Mmm := mass * g_default * g_load * span / 8.0 * 1000) in *.
  assert (ES : modulus D (- d) == modulus D d).
  { unfold modulus. field. now rewrite <- half_zero, Qdiv_zero_iff in HD by discriminate. }
  assert (HS' : ~ modulus D (- d) == 0) by now rewrite ES.
  exists (Mmm / modulus D (- d)), (strength / (Mmm / modulus D (- d))).
  split.
  { apply compute_tube_ok_iff. fold Mmm. repeat split; assumption. }
  split; rewrite ES; reflexivity.
Qed.

Lemma X7_inner_sign_irrelevant_witness :
  exists stress SF stress' SF',
    compute_tube 5 2 3 5 3 600 = Ok (stress, SF) /\
    compute_tube 5 2 3 5 (- (3)) 600 = Ok (stress', SF') /\
    stress' == stress /\ SF' == SF.
Proof.
  destruct (compute_tube 5 2 3 5 3 600) as [[stress SF]|e] eqn:E;
    [|vm_compute in E; discriminate E].
  destruct (X7_inner_sign_irrelevant 5 2 3 5 3 600 stress SF E)
    as (stress' & SF' & H).
  exists stress, SF, stress', SF'. split; [reflexivity|exact H].
Defined.

(** ** The sign of the inner diameter and the zero outer diameter in binary64 *)

Lemma SFeqb_refl_not_nan (s : SpecFloat.spec_float) :
  s <> SpecFloat.S754_nan -> SpecFloat.SFeqb s s = true.
Proof.
  intros Hs. unfold SpecFloat.SFeqb, SpecFloat.SFcompare.
  destruct s as [b|b| |b m e]; try (now destruct b); [contradiction|].
  rewrite Z.compare_refl, Pos.compare_cont_refl. now destruct b.
Qed.

Lemma b64_is_nan_spec (x : float) :
  is_nan x = true <-> FloatOps.Prim2SF x = SpecFloat.S754_nan.
Proof.
  unfold is_nan. rewrite FloatAxioms.eqb_spec. split.
  - intros H. destruct (FloatOps.Prim2SF x) as [b|b| |b m e] eqn:E; try reflexivity;
      rewrite SFeqb_refl_not_nan in H by discriminate; discriminate H.
  - intros ->. reflexivity.
Qed.

Lemma b64_abs_opp (x : float) : abs (- x) = abs x.
Proof.
  apply FloatAxioms.Prim2SF_inj.
  rewrite !FloatAxioms.abs_spec, FloatAxioms.opp_spec.
  now destruct (FloatOps.Prim2SF x).
Qed.

Lemma b64_opp_nan (x : float) : is_nan x = true -> (- x)%float = x.
Proof.
  intros H. apply b64_is_nan_spec in H.
  apply FloatAxioms.Prim2SF_inj. rewrite FloatAxioms.opp_spec, H. reflexivity.
Qed.

Lemma b64_is_nan_opp (x : float) : is_nan (- x) = is_nan x.
Proof.
  destruct (is_nan x) eqn:E.
  - now rewrite (b64_opp_nan x E).
  - destruct (is_nan (- x)) eqn:F; [|reflexivity].
    apply b64_is_nan_spec in F. rewrite FloatAxioms.opp_spec in F.
    assert (FloatOps.Prim2SF x = SpecFloat.S754_nan)
      by (destruct (FloatOps.Prim2SF x); (discriminate F || reflexivity)).
    apply b64_is_nan_spec in H. congruence.
Qed.

Lemma b64_opp_eqb_zero (x : float) : (- x =? 0)%float = (x =? 0)%float.
Proof.
  rewrite !FloatAxioms.eqb_spec, FloatAxioms.opp_spec.
  now destruct (FloatOps.Prim2SF x) as [b|b| |b m e]; try destruct b.
Qed.

Lemma b64_pypow4_opp (libm_pow : float -> float -> float) (x : float) :
  Binary64.pypow4 libm_pow (- x) = Binary64.pypow4 libm_pow x.
Proof.
  unfold Binary64.pypow4, is_infinity.
  rewrite b64_is_nan_opp, b64_abs_opp, b64_opp_eqb_zero.
  destruct (is_nan x) eqn:E; [|reflexivity].
  now rewrite (b64_opp_nan x E).
Qed.

Lemma b64_zero_cases (x : float) :
  (x =? 0)%float = true -> exists b, FloatOps.Prim2SF x = SpecFloat.S754_zero b.
Proof.
  rewrite FloatAxioms.eqb_spec.
  change (FloatOps.Prim2SF 0) with (SpecFloat.S754_zero false).
  destruct (FloatOps.Prim2SF x) as [b|b| |b m e];
    try (destruct b; discriminate); try discriminate.
  intros _. now exists b.
Qed.

Lemma b64_pypow4_zero (libm_pow : float -> float -> float) (x : float) :
  (x =? 0)%float = true -> Binary64.pypow4 libm_pow x = Ok 0%float.
Proof.
  intros H. destruct (b64_zero_cases x H) as [b Hb].
  unfold Binary64.pypow4, is_nan, is_infinity.
  rewrite H, !FloatAxioms.eqb_spec, FloatAxioms.abs_spec, Hb. reflexivity.
Qed.

Lemma b64_half_zero (x : float) :
  (x =? 0)%float = true -> (x / 2 =? 0)%float = true.
Proof.
  intros H. destruct (b64_zero_cases x H) as [b Hb].
  rewrite FloatAxioms.eqb_spec, FloatAxioms.div_spec, Hb.
  now destruct b.
Qed.

(** X19: in binary64, [compute_tube] does not see the sign of the inner
    diameter: [d] enters through [d ** 4] only, and the power of a negative
    number is computed from its absolute value. *)
Theorem X19_b64_inner_sign_irrelevant
  (libm_pow : float -> float -> float)
  (mass span g_load D d strength : float) :
  Binary64.compute_tube libm_pow mass span g_load D (- d) strength
  = Binary64.compute_tube libm_pow mass span g_load D d strength.
Proof.
  unfold Binary64.compute_tube, Binary64.tube_section.
  now rewrite b64_pypow4_opp.
Qed.

(** X20: in binary64, a zero outer diameter ([0.0] or [-0.0]) makes
    [tube_section] divide by zero, whatever the inner diameter whose fourth
    power is in range, and [compute_tube] raises [ZeroDivisionError] with
    it, whatever the loads and the strength. *)
Theorem X20_b64_zero_outer_raises
  (libm_pow : float -> float -> float)
  (mass span g_load D d strength d4 : float) :
  (D =? 0)%float = true ->
  Binary64.pypow4 libm_pow d = Ok d4 ->
  Binary64.tube_section libm_pow D d = Raise ZeroDivisionError /\
  Binary64.compute_tube libm_pow mass span g_load D d strength
  = Raise ZeroDivisionError.
Proof.
  intros HD Hd.
  assert (E : Binary64.tube_section libm_pow D d = Raise ZeroDivisionError).
  { unfold Binary64.tube_section.
    rewrite (b64_pypow4_zero libm_pow D HD), Hd. cbn [bind].
    unfold Binary64.pydiv. now rewrite (b64_half_zero D HD). }
  split; [exact E|].
  unfold Binary64.compute_tube, Binary64.root_bending_moment. now rewrite E.
Qed.

Lemma X20_b64_zero_outer_raises_witness :
  Binary64.tube_section Binary64.pow_rounded (-0) (-1) = Raise ZeroDivisionError /\
  Binary64.compute_tube Binary64.pow_rounded 5 2 3 (-0) (-1) 600
  = Raise ZeroDivisionError.
Proof.
  apply (X20_b64_zero_outer_raises Binary64.pow_rounded 5 2 3 (-0) (-1) 600 1);
    vm_compute; reflexivity.
Defined.

(** ** More on candidate parsing *)

Lemma split_length (sep : ascii) (s : string) :
  List.length (split sep s) = S (count_char sep s).
Proof.
  induction s as [|c s IH]; cbn; [reflexivity|].
  destruct (Ascii.eqb c sep); cbn.
  - now rewrite IH.
  - destruct (split sep s) as [|w ws]; cbn in *; [discriminate|exact IH].
Qed.

Lemma count_char_replace_spaces (c : ascii) (s : string) :
  c <> " "%char -> count_char c (replace_spaces s) = count_char c s.
Proof.
  intros Hc. induction s as [|a s IH]; cbn; [reflexivity|].
  destruct (Ascii.eqb a " ") eqn:E.
  - apply Ascii.eqb_eq in E. subst a.
    destruct (Ascii.eqb " " c) eqn:E'; [|exact IH].
    apply Ascii.eqb_eq in E'. congruence.
  - cbn. now rewrite IH.
Qed.

(** X9: a line that does not hold exactly one comma leaves the list of
    tubes as it is, whatever [float] reads. *)
Theorem X9_line_needs_one_comma
  (float : string -> option Q) (tubes : list (Q * Q)) (line : string) :
  count_char "," line <> 1%nat ->
  parse_line float tubes line = tubes.
Proof.
  intros H. unfold parse_line.
  pose proof (split_length "," (replace_spaces line)) as L.
  rewrite count_char_replace_spaces in L by discriminate.
  destruct (split "," (replace_spaces line)) as [|p0 [|p1 [|p2 ps]]];
    try reflexivity.
  cbn in L. congruence.
Qed.

Lemma X9_line_needs_one_comma_witness :
  parse_line float_decimal [(12, 8)] "14,10,8" = [(12, 8)].
Proof.
  apply (X9_line_needs_one_comma float_decimal [(12, 8)] "14,10,8").
  discriminate.
Defined.

Lemma count_char_lstrip (c : ascii) (s : string) :
  (count_char c (lstrip s) <= count_char c s)%nat.
Proof.
  induction s as [|a s IH]; cbn; [lia|].
  destruct (is_space a); cbn; lia.
Qed.

Lemma count_char_rstrip (c : ascii) (s : string) :
  (count_char c (rstrip s) <= count_char c s)%nat.
Proof.
  induction s as [|a s IH]; cbn; [lia|].
  destruct (rstrip s) as [|b r] eqn:E.
  - destruct (is_space a); cbn; lia.
  - cbn in *. lia.
Qed.

Lemma flat_map_option_length {A B : Type} (f : A -> option B) (l : list A) :
  (List.length (flat_map (fun a => match f a with Some b => [b] | None => [] end) l)
   <= List.length l)%nat.
Proof.
  induction l as [|a l IH]; cbn; [lia|].
  destruct (f a); cbn; lia.
Qed.

(** X10: [parse_candidates] returns at most one tube per line: no more
    tubes than the text has line breaks, plus one. *)
Theorem X10_one_tube_per_line (float : string -> option Q) (text : string) :
  (List.length (parse_candidates float text) <= S (count_char newline text))%nat.
Proof.
  rewrite parse_candidates_entries. unfold entries.
  etransitivity; [apply filter_length_le|].
  etransitivity; [apply flat_map_option_length|].
  rewrite split_length. apply le_n_S. unfold strip.
  etransitivity; [apply count_char_rstrip|apply count_char_lstrip].
Qed.

Lemma lstrip_all_space (s : string) :
  all_space s = true -> lstrip s = EmptyString.
Proof.
  induction s as [|c s IH]; cbn; [reflexivity|].
  intros H. apply andb_true_iff in H. destruct H as [-> H]. now apply IH.
Qed.

(** X11: a text of white space only (the empty text too) has no
    candidates, and the block stops with "No valid tubes!". *)
Theorem X11_blank_text
  (float : string -> option Q) (sort_values : list row -> list row)
  (mass span g_load strength target_SF : Q) (text : string) :
  all_space text = true ->
  parse_candidates float text = [] /\
  run float sort_values mass span g_load strength target_SF text
  = No_valid_tubes.
Proof.
  intros H.
  assert (E : parse_candidates float text = []).
  { unfold parse_candidates, strip. rewrite (lstrip_all_space _ H). reflexivity. }
  split; [exact E|]. unfold run. now rewrite E.
Qed.

Lemma X11_blank_text_witness :
  parse_candidates float_decimal (unlines [" "; "  "]%string) = [] /\
  run float_decimal sort_values_stable 5 2 3 600 2 (unlines [" "; "  "]%string)
  = No_valid_tubes.
Proof.
  apply (X11_blank_text float_decimal sort_values_stable 5 2 3 600 2).
  reflexivity.
Defined.

Lemma split_no_sep (sep : ascii) (x : string) :
  count_char sep x = 0%nat -> split sep x = [x].
Proof.
  induction x as [|c x IH]; cbn; [reflexivity|].
  destruct (Ascii.eqb c sep); [discriminate|].
  intros H. now rewrite (IH H).
Qed.

Lemma split_append (sep : ascii) (x rest : string) :
  count_char sep x = 0%nat ->
  split sep (String.append x (String sep rest)) = x :: split sep rest.
Proof.
  induction x as [|c x IH]; cbn.
  - intros _. now rewrite Ascii.eqb_refl.
  - destruct (Ascii.eqb c sep); [discriminate|].
    intros H. now rewrite (IH H).
Qed.

Lemma unlines_cons (x y : string) (ys : list string) :
  unlines (x :: y :: ys)
  = String.append x (String newline (unlines (y :: ys))).
Proof. reflexivity. Qed.

Lemma split_unlines (ls : list string) :
  ls <> [] ->
  Forall (fun l => count_char newline l = 0%nat) ls ->
  split newline (unlines ls) = ls.
Proof.
  intros Hne H. induction H as [|x ls Hx Hls IH]; [contradiction|].
  destruct ls as [|y ys].
  - now apply split_no_sep.
  - rewrite unlines_cons, split_append by assumption.
    f_equal. apply IH. discriminate.
Qed.

Lemma rstrip_ends_nonspace (s : string) :
  ends_nonspace s = true -> rstrip s = s.
Proof.
  induction s as [|c s IH]; cbn; [discriminate|].
  destruct s as [|a r].
  - cbn. intros H. apply negb_true_iff in H. now rewrite H.
  - intros H. rewrite (IH H). reflexivity.
Qed.

Lemma strip_tidy (s : string) :
  starts_nonspace s = true -> ends_nonspace s = true -> strip s = s.
Proof.
  intros Hs He. unfold strip.
  assert (E : lstrip s = s).
  { destruct s as [|c s]; [reflexivity|]. cbn in *.
    apply negb_true_iff in Hs. now rewrite Hs. }
  rewrite E. now apply rstrip_ends_nonspace.
Qed.

Lemma starts_nonspace_append (x y : string) :
  starts_nonspace x = true -> starts_nonspace (String.append x y) = true.
Proof. destruct x; [discriminate|trivial]. Qed.

Lemma ends_nonspace_append (x : string) (c : ascii) (y : string) :
  ends_nonspace (String.append x (String c y)) = ends_nonspace (String c y).
Proof.
  induction x as [|a x IH]; [reflexivity|].
  cbn [String.append]. rewrite <- IH.
  destruct x; reflexivity.
Qed.

Lemma unlines_tidy (ls : list string) :
  ls <> [] -> Forall tidy_line ls ->
  starts_nonspace (unlines ls) = true /\ ends_nonspace (unlines ls) = true.
Proof.
  intros Hne H. induction H as [|x ls (_ & Hs & He) Hls IH]; [contradiction|].
  destruct ls as [|y ys]; [now split|].
  rewrite unlines_cons. split; [now apply starts_nonspace_append|].
  rewrite ends_nonspace_append.
  destruct IH as [IHs IHe]; [discriminate|].
  destruct (unlines (y :: ys)) as [|a r]; [discriminate|exact IHe].
Qed.

(** A text of tidy lines is read line by line. *)
Lemma parse_candidates_unlines (float : string -> option Q) (ls : list string) :
  Forall tidy_line ls ->
  parse_candidates float (unlines ls) = fold_left (parse_line float) ls [].
Proof.
  intros H. destruct ls as [|x ls]; [reflexivity|].
  unfold parse_candidates.
  destruct (unlines_tidy (x :: ls)) as [Hs He]; [discriminate|assumption|].
  rewrite strip_tidy by assumption.
  rewrite split_unlines; [reflexivity|discriminate|].
  eapply Forall_impl; [|exact H]. now intros l (Hn & _).
Qed.

(** X12: for tidy lines (no line break inside, no white space at the
    ends), parsing the lines of two lists together gives the tubes of the
    first list followed by the tubes of the second. *)
Theorem X12_parse_concatenates
  (float : string -> option Q) (ls1 ls2 : list string) :
  Forall tidy_line ls1 -> Forall tidy_line ls2 ->
  parse_candidates float (unlines (ls1 ++ ls2))
  = parse_candidates float (unlines ls1) ++ parse_candidates float (unlines ls2).
Proof.
  intros H1 H2.
  rewrite !parse_candidates_unlines by (try apply Forall_app; auto).
  rewrite fold_left_app, !parse_loop_entries. reflexivity.
Qed.

Lemma X12_parse_concatenates_witness :
  parse_candidates float_decimal (unlines (["12,8"; "oops"]%string ++ ["9, 7"]%string))
  = parse_candidates float_decimal (unlines ["12,8"; "oops"]%string)
    ++ parse_candidates float_decimal (unlines ["9, 7"]%string).
Proof.
  apply (X12_parse_concatenates float_decimal);
    repeat constructor.
Defined.

Lemma replace_spaces_idem (s : string) :
  replace_spaces (replace_spaces s) = replace_spaces s.
Proof.
  induction s as [|c s IH]; cbn; [reflexivity|].
  destruct (Ascii.eqb c " ") eqn:E; [exact IH|].
  cbn. now rewrite E, IH.
Qed.

Lemma split_replace_spaces (sep : ascii) (s : string) :
  sep <> " "%char ->
  split sep (replace_spaces s) = map replace_spaces (split sep s).
Proof.
  intros Hsep. induction s as [|c s IH]; cbn; [reflexivity|].
  destruct (Ascii.eqb c " ") eqn:E.
  - apply Ascii.eqb_eq in E. subst c.
    destruct (Ascii.eqb " " sep) eqn:E'.
    { apply Ascii.eqb_eq in E'. congruence. }
    rewrite IH.
    destruct (split sep s) as [|w ws] eqn:Es; cbn.
    + pose proof (split_length sep s) as L. rewrite Es in L. discriminate.
    + reflexivity.
  - cbn. destruct (Ascii.eqb c sep) eqn:E'.
    + cbn. now rewrite IH.
    + rewrite IH.
      destruct (split sep s) as [|w ws] eqn:Es; cbn.
      * pose proof (split_length sep s) as L. rewrite Es in L. discriminate.
      * now rewrite E.
Qed.

Lemma lstrip_replace_spaces (s : string) :
  lstrip (replace_spaces s) = replace_spaces (lstrip s).
Proof.
  induction s as [|c s IH]; cbn; [reflexivity|].
  destruct (Ascii.eqb c " ") eqn:E.
  - apply Ascii.eqb_eq in E. subst c. exact IH.
  - cbn. destruct (is_space c); [exact IH|].
    cbn. now rewrite E.
Qed.

Lemma rstrip_nonempty_not_blank (s : string) :
  all_space (rstrip s) = true -> rstrip s = EmptyString.
Proof.
  induction s as [|c s IH]; cbn; [reflexivity|].
  destruct (rstrip s) as [|a r] eqn:E.
  - destruct (is_space c) eqn:Ec; [reflexivity|].
    cbn. rewrite Ec. discriminate.
  - intros H. cbn [all_space] in H. apply andb_true_iff in H.
    destruct H as [_ H]. specialize (IH H). discriminate.
Qed.

Lemma all_space_replace_spaces (s : string) :
  replace_spaces s = EmptyString -> all_space s = true.
Proof.
  induction s as [|c s IH]; cbn; [reflexivity|].
  destruct (Ascii.eqb c " ") eqn:E; [|discriminate].
  apply Ascii.eqb_eq in E. subst c. intros H. now rewrite (IH H).
Qed.

Lemma rstrip_replace_spaces (s : string) :
  rstrip (replace_spaces s) = replace_spaces (rstrip s).
Proof.
  induction s as [|c s IH]; [reflexivity|].
  cbn [replace_spaces rstrip].
  destruct (Ascii.eqb c " ") eqn:E.
  - apply Ascii.eqb_eq in E. subst c. rewrite IH.
    destruct (rstrip s) as [|a r]; reflexivity.
  - cbn [rstrip]. rewrite IH.
    destruct (rstrip s) as [|a r] eqn:Er.
    + cbn. destruct (is_space c); [reflexivity|]. cbn. now rewrite E.
    + destruct (replace_spaces (String a r)) as [|a' r'] eqn:Erep.
      * apply all_space_replace_spaces in Erep.
        rewrite <- Er in Erep. apply rstrip_nonempty_not_blank in Erep.
        congruence.
      * change (replace_spaces (String c (String a r)))
          with (if Ascii.eqb c " " then replace_spaces (String a r)
                else String c (replace_spaces (String a r))).
        now rewrite E, Erep.
Qed.

Lemma parse_line_replace_spaces
  (float : string -> option Q) (tubes : list (Q * Q)) (line : string) :
  parse_line float tubes (replace_spaces line) = parse_line float tubes line.
Proof. unfold parse_line. now rewrite replace_spaces_idem. Qed.

(** X13: the blanks of the text are ignored: removing every space
    character from the text leaves the parsed candidates unchanged. *)
Theorem X13_spaces_ignored (float : string -> option Q) (text : string) :
  parse_candidates float (replace_spaces text) = parse_candidates float text.
Proof.
  unfold parse_candidates, strip.
  rewrite lstrip_replace_spaces, rstrip_replace_spaces.
  rewrite split_replace_spaces by discriminate.
  generalize (@nil (Q * Q)).
  induction (split newline (rstrip (lstrip text))) as [|l ls IH]; intros acc;
    cbn; [reflexivity|].
  now rewrite parse_line_replace_spaces, IH.
Qed.

(** ** More on the block *)

Section EvaluationMore.

Variables mass span g_load strength target_SF : Q.

Local Abbreviation evaluate' := (evaluate mass span g_load strength target_SF).
Local Abbreviation evaluated' := (evaluated mass span g_load strength target_SF).

Lemma evaluated_functional (t : Q * Q) (r r' : row) :
  evaluated' t r -> evaluated' t r' -> r = r'.
Proof.
  intros (Hg & Hc & Hp) (Hg' & Hc' & Hp').
  destruct r as [o i s f p], r' as [o' i' s' f' p']. cbn in *.
  unfold geometry in *. cbn in *. subst t.
  injection Hg' as -> ->. cbn in *.
  rewrite Hc in Hc'. injection Hc' as -> ->. congruence.
Qed.

Lemma evaluate_complete (tubes : list (Q * Q)) (rows : list row) :
  Forall2 evaluated' tubes rows ->
  forall acc, evaluate' tubes acc = Ok (acc ++ rows).
Proof.
  induction 1 as [|[D d] r tubes rows (Hg & Hc & Hp) _ IH]; intros acc;
    cbn [evaluate].
  - now rewrite app_nil_r.
  - cbn [fst snd] in Hc. rewrite Hc. cbn [bind].
    rewrite IH, <- app_assoc. do 2 f_equal. cbn [app]. f_equal.
    destruct r as [o i s f p]. unfold geometry in Hg. cbn in *.
    injection Hg as -> ->. now rewrite Hp.
Qed.

End EvaluationMore.

(** X14: the block ends with an uncaught exception exactly when
    [compute_tube] raises for one of the tubes, and the exception is that
    of the first such tube: the evaluation loop catches nothing, so the
    tubes after it are not evaluated. *)
Theorem X14_uncaught_iff
  (sort_values : list row -> list row)
  (mass span g_load strength target_SF : Q) (tubes : list (Q * Q)) (e : exn) :
  run_tubes sort_values mass span g_load strength target_SF tubes = Uncaught e
  <-> exists l1 t l2,
        tubes = l1 ++ t :: l2 /\
        Forall (returns_for mass span g_load strength) l1 /\
        compute_tube mass span g_load (fst t) (snd t) strength = Raise e.
Proof.
  rewrite run_tubes_uncaught. apply evaluate_raise_first.
Qed.

Lemma X14_uncaught_iff_witness :
  run_tubes sort_values_stable 5 2 3 600 2 [(12, 8); (0, -1); (14, 10)]
  = Uncaught ZeroDivisionError.
Proof.
  apply (X14_uncaught_iff sort_values_stable 5 2 3 600 2
           [(12, 8); (0, -1); (14, 10)]).
  exists [(12, 8)], (0, -1), [(14, 10)].
  split; [reflexivity|]. split; [|reflexivity].
  repeat constructor. eexists. vm_compute. reflexivity.
Defined.

Lemma Forall2_In_l {A B : Type} (R : A -> B -> Prop) l1 l2 a :
  Forall2 R l1 l2 -> In a l1 -> exists b, In b l2 /\ R a b.
Proof.
  induction 1 as [|x y l1 l2 Hxy _ IH]; cbn; [contradiction|].
  intros [<-|Hin].
  - exists y. split; [now left|assumption].
  - destruct (IH Hin) as (b & Hb & HR). exists b. split; [now right|assumption].
Qed.

Lemma Forall2_Permutation {A B : Type} (R : A -> B -> Prop) l1 l1' :
  Permutation l1 l1' ->
  forall l2, Forall2 R l1 l2 ->
  exists l2', Forall2 R l1' l2' /\ Permutation l2 l2'.
Proof.
  induction 1 as [|x l1 l1' _ IH|x y l1|l1 l1' l1'' _ IH1 _ IH2]; intros l2 H.
  - inversion H; subst. exists []. split; constructor.
  - inversion H as [|? b ? l2t Hxb Ht]; subst.
    destruct (IH _ Ht) as (l2' & HF & HP).
    exists (b :: l2'). split; now constructor.
  - inversion H as [|? b ? l2t Hyb Ht]; subst.
    inversion Ht as [|? c ? l2u Hxc Hu]; subst.
    exists (c :: b :: l2u). split; [now repeat constructor|apply perm_swap].
  - destruct (IH1 _ H) as (l2' & HF' & HP').
    destruct (IH2 _ HF') as (l2'' & HF'' & HP'').
    exists l2''. split; [assumption|now transitivity l2'].
Qed.

Lemma first_passing_In (df : list row) (r : row) :
  first_passing df r -> In r df /\ Pass r = true.
Proof.
  intros (l1 & l2 & -> & _ & Hp). split; [|assumption].
  apply in_or_app. right. now left.
Qed.

Lemma some_passing_hd (df : list row) (r : row) :
  In r df -> Pass r = true -> exists r', hd_error (filter Pass df) = Some r'.
Proof.
  intros Hin Hp.
  destruct (hd_error (filter Pass df)) as [r'|] eqn:E; [now exists r'|].
  apply none_passing_hd in E. rewrite Forall_forall in E.
  specialize (E r Hin). congruence.
Qed.

(** X16: the order of the candidates does not matter to the result: when
    the block gives a report for a list of tubes, it gives one for every
    rearrangement of the list (and for any sort in ascending order of outer
    diameter), with the same summary, the same rows up to their order, and
    a recommendation that is absent in both or has the same outer diameter
    in both. *)
Theorem X16_recommendation_order_independent
  (sort_values sort_values' : list row -> list row)
  (mass span g_load strength target_SF : Q) (tubes tubes' : list (Q * Q))
  W L M df best :
  sorts_by_outer sort_values -> sorts_by_outer sort_values' ->
  Permutation tubes tubes' ->
  run_tubes sort_values mass span g_load strength target_SF tubes
  = Report W L M df best ->
  exists df' best',
    run_tubes sort_values' mass span g_load strength target_SF tubes'
    = Report W L M df' best' /\
    Permutation df df' /\
    match best, best' with
    | Some r, Some r' => Outer r == Outer r'
    | None, None => True
    | _, _ => False
    end.
Proof.
  intros Hsort Hsort' Hperm Hrun.
  pose proof Hrun as Hrep. apply run_tubes_report in Hrep.
  destruct Hrep as (results & E & Hdf & Hbest).
  apply evaluate_rows in E. destruct E as (rows & -> & Hrows). cbn [app] in Hdf.
  destruct (Forall2_Permutation _ _ _ Hperm _ Hrows) as (rows' & Hrows' & Hp).
  pose proof (evaluate_complete _ _ _ _ _ _ _ Hrows' []) as E'. cbn [app] in E'.
  assert (Hne : tubes' <> []).
  { intros ->. apply Permutation_sym, Permutation_nil in Hperm.
    subst tubes. discriminate Hrun. }
  set (df' := sort_values' rows').
  exists df', (hd_error (filter Pass df')).
  assert (Hrun' : run_tubes sort_values' mass span g_load strength target_SF tubes'
                  = Report W L M df' (hd_error (filter Pass df'))).
  { unfold run_tubes, root_bending_moment in Hrun |- *.
    destruct tubes' as [|t' tubes']; [contradiction|]. rewrite E'.
    destruct tubes as [|t tubes]; [discriminate|].
    destruct (evaluate mass span g_load strength target_SF (t :: tubes) []);
      [|discriminate].
    injection Hrun as <- <- <- _ _. reflexivity. }
  split; [exact Hrun'|].
  assert (Hdd : Permutation df df').
  { subst df. unfold df'.
    rewrite (proj1 (Hsort rows)), (proj1 (Hsort' rows')). exact Hp. }
  split; [exact Hdd|].
  assert (Hs : Sorted by_outer df) by (subst df; apply Hsort).
  assert (Hs' : Sorted by_outer df') by apply Hsort'.
  subst best.
  destruct (hd_error (filter Pass df)) as [r|] eqn:Eb.
  - apply first_passing_hd in Eb.
    destruct (first_passing_In _ _ Eb) as [Hin Hpass].
    destruct (some_passing_hd df' r) as [r' Eb'];
      [now apply (Permutation_in _ Hdd)|assumption|].
    rewrite Eb'. apply first_passing_hd in Eb'.
    destruct (first_passing_In _ _ Eb') as [Hin' Hpass'].
    apply Qle_antisym.
    + apply (first_passing_smallest df r Hs Eb); [|assumption].
      now apply (Permutation_in _ (Permutation_sym Hdd)).
    + apply (first_passing_smallest df' r' Hs' Eb'); [|assumption].
      now apply (Permutation_in _ Hdd).
  - apply none_passing_hd in Eb.
    assert (Eb' : hd_error (filter Pass df') = None).
    { apply none_passing_hd. rewrite Forall_forall in *.
      intros x Hx. apply Eb. now apply (Permutation_in _ (Permutation_sym Hdd)). }
    now rewrite Eb'.
Qed.

Lemma X16_recommendation_order_independent_witness :
  exists W L M df best df' best',
    run_tubes sort_values_stable 5 2 3 600 2 [(14, 10); (10, 8); (12, 8)]
    = Report W L M df best /\
    run_tubes sort_values_reversing 5 2 3 600 2 [(12, 8); (14, 10); (10, 8)]
    = Report W L M df' best' /\
    Permutation df df'.
Proof.
  destruct (run_tubes sort_values_stable 5 2 3 600 2 [(14, 10); (10, 8); (12, 8)])
    as [| e |W L M df best] eqn:Hrun;
    [vm_compute in Hrun; discriminate Hrun .. |].
  destruct (X16_recommendation_order_independent
              sort_values_stable sort_values_reversing 5 2 3 600 2
              [(14, 10); (10, 8); (12, 8)] [(12, 8); (14, 10); (10, 8)]
              W L M df best
              sort_values_stable_sorts sort_values_reversing_sorts)
    as (df' & best' & Hrun' & Hp & _).
  { apply Permutation_sym, (Permutation_cons_app [_; _] []). reflexivity. }
  { exact Hrun. }
  exists W, L, M, df, best, df', best'. repeat split; assumption.
Defined.

(** X17: lowering the target safety factor keeps a recommendation: when
    a tube is recommended for a target, one is recommended for every lower
    target, and its outer diameter is not larger. *)
Theorem X17_lower_target_keeps_recommendation
  (sort_values : list row -> list row)
  (mass span g_load strength target target' : Q) (tubes : list (Q * Q))
  W L M df r :
  sorts_by_outer sort_values -> target' <= target ->
  run_tubes sort_values mass span g_load strength target tubes
  = Report W L M df (Some r) ->
  exists df' r',
    run_tubes sort_values mass span g_load strength target' tubes
    = Report W L M df' (Some r') /\
    Outer r' <= Outer r.
Proof.
  intros Hsort Hle Hrun.
  pose proof Hrun as Hrep. apply run_tubes_report in Hrep.
  destruct Hrep as (results & E & Hdf & Hbest).
  apply evaluate_rows in E. destruct E as (rows & -> & Hrows). cbn [app] in Hdf.
  set (retarget := fun x : row =>
         mk_row (Outer x) (Inner x) (Stress x) (Safety_Factor x)
                (Qle_bool target' (Safety_Factor x))).
  assert (Hrows' : Forall2 (evaluated mass span g_load strength target')
                     tubes (map retarget rows)).
  { clear - Hrows. induction Hrows as [|t x tubes rows (Hg & Hc & _) _ IH];
      cbn; constructor; [|assumption].
    repeat split; assumption. }
  pose proof (evaluate_complete _ _ _ _ _ _ _ Hrows' []) as E'. cbn [app] in E'.
  symmetry in Hbest. apply first_passing_hd in Hbest.
  destruct (first_passing_In _ _ Hbest) as [Hin Hpass].
  assert (Hin' : In (retarget r) (sort_values (map retarget rows))).
  { apply (Permutation_in _ (Permutation_sym (proj1 (Hsort _)))).
    apply in_map. subst df. now apply (Permutation_in _ (proj1 (Hsort _))). }
  assert (Hpass' : Pass (retarget r) = true).
  { cbn. apply Qle_bool_iff. apply Qle_trans with target; [assumption|].
    assert (Hr : In r rows)
      by (subst df; now apply (Permutation_in _ (proj1 (Hsort _)))).
    destruct (Forall2_In_r _ _ _ _ Hrows Hr) as (t & _ & _ & _ & Hp).
    apply Qle_bool_iff. congruence. }
  destruct (some_passing_hd _ _ Hin' Hpass') as [r' Eb'].
  exists (sort_values (map retarget rows)), r'. split.
  - unfold run_tubes, root_bending_moment in Hrun |- *.
    destruct tubes as [|t tubes]; [discriminate|]. rewrite E'.
    destruct (evaluate mass span g_load strength target (t :: tubes) []);
      [|discriminate].
    injection Hrun as <- <- <- _ _. now rewrite Eb'.
  - apply first_passing_hd in Eb'.
    apply (first_passing_smallest _ r' (proj2 (Hsort _)) Eb' (retarget r));
      assumption.
Qed.

Lemma X17_lower_target_keeps_recommendation_witness :
  exists W L M df r df' r',
    run_tubes sort_values_stable 5 2 3 600 2 [(14, 10); (10, 8); (12, 8)]
    = Report W L M df (Some r) /\
    run_tubes sort_values_stable 5 2 3 600 0.9 [(14, 10); (10, 8); (12, 8)]
    = Report W L M df' (Some r') /\
    Outer r' <= Outer r.
Proof.
  destruct (run_tubes sort_values_stable 5 2 3 600 2 [(14, 10); (10, 8); (12, 8)])
    as [| e |W L M df [r|]] eqn:Hrun;
    [vm_compute in Hrun; discriminate Hrun .. | | vm_compute in Hrun; discriminate Hrun].
  destruct (X17_lower_target_keeps_recommendation
              sort_values_stable 5 2 3 600 2 0.9
              [(14, 10); (10, 8); (12, 8)] W L M df r
              sort_values_stable_sorts)
    as (df' & r' & Hrun' & Hle).
  { discriminate. }
  { exact Hrun. }
  exists W, L, M, df, r, df', r'. repeat split; assumption.
Defined.

Lemma py_int_bounds (x : Q) :
  0 <= x -> inject_Z (py_int x) <= x /\ x < inject_Z (py_int x) + 1.
Proof.
  destruct x as [n d]. unfold py_int, Qle, Qlt, Qplus, inject_Z. cbn.
  intros H. rewrite Z.mul_1_r in H.
  rewrite Z.quot_div_nonneg by lia.
  pose proof (Z.mul_div_le n (Zpos d) ltac:(lia)).
  pose proof (Z.mul_succ_div_gt n (Zpos d) ltac:(lia)).
  split; nia.
Qed.

(** X18: the message "Recommended: ... x ... mm" shows the integer parts
    of the two diameters: for a row with [0 <= inner <= outer], each shown
    number is at most the diameter and less than one below it, and the
    shown inner number is at most the shown outer one (it can equal it). *)
Theorem X18_message_truncates (best : row) :
  0 <= Inner best -> Inner best <= Outer best ->
  let '(o, i) := shown_size best in
  inject_Z o <= Outer best /\ Outer best < inject_Z o + 1 /\
  inject_Z i <= Inner best /\ Inner best < inject_Z i + 1 /\
  (i <= o)%Z.
Proof.
  intros Hi Hio. unfold shown_size.
  assert (Ho : 0 <= Outer best) by lra.
  destruct (py_int_bounds _ Hi) as [Hi1 Hi2].
  destruct (py_int_bounds _ Ho) as [Ho1 Ho2].
  repeat split; try assumption.
  assert (H : inject_Z (py_int (Inner best)) < inject_Z (py_int (Outer best)) + 1)
    by lra.
  unfold Qlt, Qplus, inject_Z in H. cbn in H. lia.
Qed.

Lemma X18_message_truncates_witness :
  let '(o, i) := shown_size (mk_row 12.6 12.2 0 0 true) in
  inject_Z o <= 12.6 /\ 12.6 < inject_Z o + 1 /\
  inject_Z i <= 12.2 /\ 12.2 < inject_Z i + 1 /\
  (i <= o)%Z.
Proof.
  apply (X18_message_truncates (mk_row 12.6 12.2 0 0 true)); discriminate.
Defined.

Example shown_size_equal :
  shown_size (mk_row 12.6 12.2 0 0 true) = (12%Z, 12%Z).
Proof. reflexivity. Qed.
